(** * The users service of [app/app.py]: handlers, record store and cache

    A shallow embedding of the Flask handlers [create_user], [get_users],
    [get_user], [update_user] and [delete_user], run against a model of
    the two collaborators they talk to: the PostgreSQL table [users]
    (through psycopg2) and the Redis cache.

    Every handler is a computation in a state-and-exception monad over a
    [world]; besides its response it yields the chronological list of
    calls it made to the store and to the cache, so that statements such
    as "the store is not consulted" or "invalidation comes after the
    commit" can be read off that list. *)

From Stdlib Require Import ZArith Lia Ascii String.
From stdpp Require Import base option list gmap strings pretty sorting.

Local Open Scope string_scope.
Local Open Scope Z_scope.
Local Open Scope list_scope.

(** ** JSON documents and the Python values they decode to *)

(** What [request.get_json()] returns, and what [jsonify] is given.
    Numbers are the integral ones; a missing body is [JNull] (Python's
    [None]).  An object is the item list of the decoded [dict], in
    insertion order, its keys pairwise distinct. *)
#[warnings="-register-all"]
Inductive json : Type :=
| JNull
| JBool (b : bool)
| JNum (n : Z)
| JStr (s : string)
| JArr (elems : list json)
| JObj (items : list (string * json)).

(** Python truth value: [None], [False], [0], [''], [[]] and [{}] are
    false, everything else is true. *)
Definition truthy (v : json) : bool :=
  match v with
  | JNull => false
  | JBool b => b
  | JNum n => negb (n =? 0)
  | JStr s => negb (String.eqb s EmptyString)
  | JArr elems => match elems with [] => false | _ => true end
  | JObj items => match items with [] => false | _ => true end
  end.

Fixpoint assoc (k : string) (items : list (string * json)) : option json :=
  match items with
  | [] => None
  | (k', v) :: rest => if String.eqb k k' then Some v else assoc k rest
  end.

(** ** Exceptions *)

(** The exception classes the handlers can meet.  [IntegrityError] is
    psycopg2's (unique and not-null violations); [DatabaseError] stands
    for every other psycopg2 error; all of them are caught by
    [except Exception].  The argument is what [str(e)] gives. *)
Inductive exn : Type :=
| IntegrityError (msg : string)
| DatabaseError (msg : string)
| AttributeError (msg : string)
| KeyError (msg : string)
| TypeError (msg : string).

Definition str (e : exn) : string :=
  match e with
  | IntegrityError msg | DatabaseError msg | AttributeError msg
  | KeyError msg | TypeError msg => msg
  end.

(** ** The world: record store, cache, reachability *)

(** A row of [users].  A TIMESTAMP is represented by the text that
    [.isoformat()] renders it to, the only way the handlers look at it. *)
Record user : Type := User {
  col_id : Z;
  col_name : string;
  col_email : string;
  col_created_at : string
}.

(** The statements the handlers send, with their parameters. *)
Inductive statement : Type :=
| Insert (name email : json)
| SelectAll
| SelectById (user_id : Z)
| Update (set_name set_email : option json) (user_id : Z)
| Delete (user_id : Z).

(** A call made to one of the two collaborators. *)
Inductive event : Type :=
| DbConnect (ok : bool)
| DbExecute (q : statement)
| DbCommit
| DbClose
| RedisConnect (ok : bool)
| RedisGet (key : string)
| RedisSetex (key : string) (ttl : Z) (value : json)
| RedisDelete (key : string).

(** [db_up] and [redis_up] say whether [psycopg2.connect] and the
    [ping()] of a new Redis client go through; a connection that was
    made serves the request to its end.
    [users] is the committed table, [txn] the working copy of the open
    connection's transaction (if a connection is open), [users_id_seq]
    the last value handed out by the SERIAL sequence (which is not
    transactional), [current_timestamp] the store's clock.  A cache
    entry is the JSON document whose [json.dumps] text Redis holds,
    with the seconds it has left to live: the only writer of these keys
    is this program, [json.loads] undoes [json.dumps] on the documents
    it writes, and that text is never empty, so that [if cached:] is a
    test of presence. *)
Record world : Type := World {
  db_up : bool;
  redis_up : bool;
  users : list user;
  users_id_seq : Z;
  current_timestamp : string;
  txn : option (list user);
  cache : gmap string (json * Z)
}.

Definition set_users (us : list user) (w : world) : world :=
  World (db_up w) (redis_up w) us (users_id_seq w) (current_timestamp w) (txn w) (cache w).
Definition set_users_id_seq (n : Z) (w : world) : world :=
  World (db_up w) (redis_up w) (users w) n (current_timestamp w) (txn w) (cache w).
Definition set_txn (t : option (list user)) (w : world) : world :=
  World (db_up w) (redis_up w) (users w) (users_id_seq w) (current_timestamp w) t (cache w).
Definition set_cache (c : gmap string (json * Z)) (w : world) : world :=
  World (db_up w) (redis_up w) (users w) (users_id_seq w) (current_timestamp w) (txn w) c.
Definition set_redis_up (b : bool) (w : world) : world :=
  World (db_up w) b (users w) (users_id_seq w) (current_timestamp w) (txn w) (cache w).

(** ** The monad of handlers *)

(** A computation takes a world and gives a value or a raised
    exception, the world it leaves, and the calls it made, oldest
    first. *)
Definition M (A : Type) : Type := world → (exn + A) * world * list event.

Definition ret {A} (a : A) : M A := λ w, (inr a, w, []).

Definition bind {A B} (m : M A) (k : A → M B) : M B := λ w,
  match m w with
  | (inl e, w1, l1) => (inl e, w1, l1)
  | (inr a, w1, l1) =>
      match k a w1 with
      | (r, w2, l2) => (r, w2, l1 ++ l2)
      end
  end.

Global Instance M_ret : MRet M := @ret.
Global Instance M_bind : MBind M := λ A B k m, bind m k.

Definition raise {A} (e : exn) : M A := λ w, (inl e, w, []).
Definition emit (ev : event) : M unit := λ w, (inr (), w, [ev]).
Definition gets {A} (f : world → A) : M A := λ w, (inr (f w), w, []).
Definition modify (f : world → world) : M unit := λ w, (inr (), f w, []).

Definition lift {A} (r : exn + A) : M A :=
  match r with inl e => raise e | inr a => ret a end.

(** [try: body except Exception as e: handler e finally: fin].  The
    handlers of the source never raise, and [fin] runs on every path. *)
Definition try_except_finally {A} (body : M A) (handler : exn → M A) (fin : M unit) : M A := λ w,
  match body w with
  | (inr a, w1, l1) =>
      match fin w1 with
      | (inr _, w2, l2) => (inr a, w2, l1 ++ l2)
      | (inl e, w2, l2) => (inl e, w2, l1 ++ l2)
      end
  | (inl e, w1, l1) =>
      match handler e w1 with
      | (r, w2, l2) =>
          match fin w2 with
          | (inr _, w3, l3) => (r, w3, l1 ++ l2 ++ l3)
          | (inl e', w3, l3) => (inl e', w3, l1 ++ l2 ++ l3)
          end
      end
  end.

(** The three projections of a run. *)
Definition result {A} (r : (exn + A) * world * list event) : exn + A := r.1.1.
Definition after {A} (r : (exn + A) * world * list event) : world := r.1.2.
Definition calls {A} (r : (exn + A) * world * list event) : list event := r.2.

(** ** psycopg2 and the table [users] *)

(** The handles [psycopg2.connect] and [redis.Redis] give; what they
    stand for lives in the world. *)
Inductive connection : Type := Connection.
Inductive redis_client : Type := RedisClient.

(** Assignment to a [VARCHAR(100)] column: a longer text is an error
    unless all that exceeds the limit is spaces, which are cut off. *)
Definition varchar100 (s : string) : exn + string :=
  if (String.length s <=? 100)%nat then inr s
  else if forallb (Ascii.eqb " "%char) (String.list_ascii_of_string (String.substring 100 (String.length s - 100) s))
       then inr (String.substring 0 100 s)
       else inl (DatabaseError "value too long for type character varying(100)").

(** A query parameter bound to a [VARCHAR(100)] column, as psycopg2
    adapts the Python value and PostgreSQL assigns it: [None] is NULL
    (here [None]), text is itself, a number or a boolean is its text, an
    empty list is the literal ['{}'], a dict cannot be adapted and a
    non-empty list is an array, which the column refuses. *)
Definition adapt (v : json) : exn + option string :=
  match v with
  | JNull => inr None
  | JStr s => match varchar100 s with inl e => inl e | inr s' => inr (Some s') end
  | JNum n => match varchar100 (pretty n) with inl e => inl e | inr s' => inr (Some s') end
  | JBool b => inr (Some (if b then "true" else "false"))
  | JArr [] => inr (Some "{}")
  | JArr _ => inl (DatabaseError "column is of type character varying but expression is an array")
  | JObj _ => inl (DatabaseError "can't adapt type 'dict'")
  end.

(** The same for a column of a dynamic [SET] list: [None] when the
    column is not assigned. *)
Definition adapt_set (p : option json) : exn + option (option string) :=
  match p with
  | None => inr None
  | Some v => match adapt v with inl e => inl e | inr s => inr (Some s) end
  end.

Definition assign (old : string) (new : option (option string)) : option string :=
  match new with None => Some old | Some v => v end.

Definition has_id (user_id : Z) (u : user) : bool := col_id u =? user_id.
Definition has_email (e : string) (u : user) : bool := String.eqb (col_email u) e.

(** The rows the open transaction sees. *)
Definition working (w : world) : list user := default (users w) (txn w).

Definition not_null : exn := IntegrityError "null value violates not-null constraint".
Definition unique_email : exn :=
  IntegrityError "duplicate key value violates unique constraint users_email_key".

(** [ORDER BY id]. *)
Definition by_id (a b : user) : Prop := col_id a ≤ col_id b.
Global Instance by_id_dec : RelDecision by_id := λ a b, Z_le_dec (col_id a) (col_id b).

(** [nextval('users_id_seq')], the default of the SERIAL column. *)
Definition nextval : M Z :=
  modify (λ w, set_users_id_seq (users_id_seq w + 1) w);;
  gets users_id_seq.

(** [cur.execute(query, params)] followed by the fetch of its result
    set.  The parameters are adapted first; an INSERT then draws its id,
    and the NOT NULL and UNIQUE constraints of the table are checked
    last.  UPDATE and DELETE act on the rows whose [id] is the given
    one (at most one, [id] being the primary key), and RETURNING makes
    them the result set. *)
Definition execute (q : statement) : M (list user) :=
  emit (DbExecute q);;
  match q with
  | Insert name email =>
      n ← lift (adapt name);
      e ← lift (adapt email);
      i ← nextval;
      t ← gets working;
      match n, e with
      | Some n, Some e =>
          if existsb (has_email e) t then raise unique_email
          else
            now ← gets current_timestamp;
            let u := User i n e now in
            modify (set_txn (Some (t ++ [u])));;
            mret [u]
      | _, _ => raise not_null
      end
  | SelectAll =>
      t ← gets working;
      mret (merge_sort by_id t)
  | SelectById user_id =>
      t ← gets working;
      mret (List.filter (has_id user_id) t)
  | Update set_name set_email user_id =>
      n ← lift (adapt_set set_name);
      e ← lift (adapt_set set_email);
      match n, e with
      | None, None => raise (DatabaseError "syntax error at or near WHERE")
      | _, _ =>
          t ← gets working;
          match List.find (has_id user_id) t with
          | None => mret []
          | Some old =>
              match assign (col_name old) n, assign (col_email old) e with
              | Some n', Some e' =>
                  if existsb (λ u, has_email e' u && negb (has_id user_id u)) t
                  then raise unique_email
                  else
                    let u := User (col_id old) n' e' (col_created_at old) in
                    modify (set_txn (Some (map (λ r, if has_id user_id r then u else r) t)));;
                    mret [u]
              | _, _ => raise not_null
              end
          end
      end
  | Delete user_id =>
      t ← gets working;
      modify (set_txn (Some (List.filter (λ u, negb (has_id user_id u)) t)));;
      mret (List.filter (has_id user_id) t)
  end.

Definition fetchone (rows : list user) : option user := head rows.
Definition fetchall (rows : list user) : list user := rows.

(** [conn.commit()]: the working copy becomes the table. *)
Definition commit : M unit :=
  emit DbCommit;;
  modify (λ w, match txn w with Some t => set_users t w | None => w end).

(** [cur.close(); conn.close()]: what was not committed is lost. *)
Definition close : M unit :=
  emit DbClose;;
  modify (set_txn None).

(** ** redis-py *)

Definition redis_get (key : string) : M (option json) :=
  emit (RedisGet key);;
  gets (λ w, fst <$> cache w !! key).

Definition redis_setex (key : string) (ttl : Z) (value : json) : M unit :=
  emit (RedisSetex key ttl value);;
  modify (λ w, set_cache (<[key := (value, ttl)]> (cache w)) w).

Definition redis_delete (key : string) : M unit :=
  emit (RedisDelete key);;
  modify (λ w, set_cache (delete key (cache w)) w).

(** The passing of [dt] seconds: an entry whose time to live is used up
    is gone. *)
Definition elapse (dt : Z) (w : world) : world :=
  set_cache (filter (λ kv, 0 < kv.2.2) ((λ e : json * Z, (e.1, e.2 - dt)) <$> cache w)) w.

(** ** The application *)

(** [get_db_connection()]: a connection, or [None] when
    [psycopg2.connect] raises.  A new connection starts a transaction
    on the table as it is. *)
Definition get_db_connection : M (option connection) :=
  up ← gets db_up;
  emit (DbConnect up);;
  if up : bool then modify (λ w, set_txn (Some (users w)) w);; mret (Some Connection)
  else mret None.

(** [get_redis_connection()]: a client that answered [ping()], or
    [None]. *)
Definition get_redis_connection : M (option redis_client) :=
  up ← gets redis_up;
  emit (RedisConnect up);;
  mret (if up : bool then Some RedisClient else None).

(** [data.get(k)]: only a dict has the method. *)
Definition dict_get (data : json) (k : string) : M json :=
  match data with
  | JObj items => mret (default JNull (assoc k items))
  | _ => raise (AttributeError "object has no attribute 'get'")
  end.

(** [k in data] and [data[k]]; the handlers come to them with a dict
    only, [data.get] having raised for anything else. *)
Definition contains (k : string) (data : json) : bool :=
  match data with
  | JObj items => bool_decide (is_Some (assoc k items))
  | _ => false
  end.

Definition getitem (data : json) (k : string) : M json :=
  match data with
  | JObj items =>
      match assoc k items with
      | Some v => mret v
      | None => raise (KeyError k)
      end
  | _ => raise (KeyError k)
  end.

Definition py_not (v : json) : bool := negb (truthy v).

(** A response: the document given to [jsonify] and the status code. *)
Definition response : Type := json * Z.

Definition error (msg : string) : json := JObj [("error", JStr msg)].

(** The dict of a row, [created_at] in ISO format. *)
Definition user_dict (u : user) : json :=
  JObj [("id", JNum (col_id u)); ("name", JStr (col_name u));
        ("email", JStr (col_email u)); ("created_at", JStr (col_created_at u))].

(** [f'user:{user_id}'] *)
Definition user_key (user_id : Z) : string := "user:" +:+ pretty user_id.

(** The [except] clauses shared by the two writers that can meet a
    duplicate email. *)
Definition on_store_error (e : exn) : M response :=
  match e with
  | IntegrityError _ => mret (error "Email already exists", 400)
  | _ => mret (error (str e), 500)
  end.

Definition on_error (e : exn) : M response := mret (error (str e), 500).

(** POST /users *)
Definition create_user (data : json) : M response :=
  invalid ← (if py_not data then mret true else
             name ← dict_get data "name";
             if py_not name then mret true else
             email ← dict_get data "email";
             mret (py_not email));
  if invalid : bool then mret (error "Name and email are required", 400) else
  conn ← get_db_connection;
  match conn with
  | None => mret (error "Database connection failed", 500)
  | Some _ =>
      try_except_finally
        (name ← getitem data "name";
         email ← getitem data "email";
         rows ← execute (Insert name email);
         match fetchone rows with
         | None => raise (TypeError "'NoneType' object is not subscriptable")
         | Some user =>
             commit;;
             redis_conn ← get_redis_connection;
             match redis_conn with
             | Some _ => redis_delete "users:all"
             | None => mret ()
             end;;
             mret (user_dict user, 201)
         end)
        on_store_error
        close
  end.

(** GET /users *)
Definition get_users : M response :=
  redis_conn ← get_redis_connection;
  cached_users ← match redis_conn with
                 | Some _ => redis_get "users:all"
                 | None => mret None
                 end;
  match cached_users with
  | Some cached => mret (cached, 200)
  | None =>
      conn ← get_db_connection;
      match conn with
      | None => mret (error "Database connection failed", 500)
      | Some _ =>
          try_except_finally
            (rows ← execute SelectAll;
             let users_list := JArr (map user_dict (fetchall rows)) in
             match redis_conn with
             | Some _ => redis_setex "users:all" 30 users_list
             | None => mret ()
             end;;
             mret (users_list, 200))
            on_error
            close
      end
  end.

(** GET /users/<int:user_id> *)
Definition get_user (user_id : Z) : M response :=
  redis_conn ← get_redis_connection;
  let cache_key := user_key user_id in
  cached_user ← match redis_conn with
                | Some _ => redis_get cache_key
                | None => mret None
                end;
  match cached_user with
  | Some cached => mret (cached, 200)
  | None =>
      conn ← get_db_connection;
      match conn with
      | None => mret (error "Database connection failed", 500)
      | Some _ =>
          try_except_finally
            (rows ← execute (SelectById user_id);
             match fetchone rows with
             | None => mret (error "User not found", 404)
             | Some user =>
                 let user_dict := user_dict user in
                 match redis_conn with
                 | Some _ => redis_setex cache_key 60 user_dict
                 | None => mret ()
                 end;;
                 mret (user_dict, 200)
             end)
            on_error
            close
      end
  end.

(** PUT /users/<int:user_id> *)
Definition update_user (user_id : Z) (data : json) : M response :=
  invalid ← (if py_not data then mret true else
             name ← dict_get data "name";
             if py_not name then
               email ← dict_get data "email";
               mret (py_not email)
             else mret false);
  if invalid : bool then mret (error "Name or email is required", 400) else
  conn ← get_db_connection;
  match conn with
  | None => mret (error "Database connection failed", 500)
  | Some _ =>
      try_except_finally
        (set_name ← (if contains "name" data
                     then v ← getitem data "name"; mret (Some v)
                     else mret None);
         set_email ← (if contains "email" data
                      then v ← getitem data "email"; mret (Some v)
                      else mret None);
         rows ← execute (Update set_name set_email user_id);
         match fetchone rows with
         | None => mret (error "User not found", 404)
         | Some user =>
             commit;;
             redis_conn ← get_redis_connection;
             match redis_conn with
             | Some _ =>
                 redis_delete "users:all";;
                 redis_delete (user_key user_id)
             | None => mret ()
             end;;
             mret (user_dict user, 200)
         end)
        on_store_error
        close
  end.

(** DELETE /users/<int:user_id> *)
Definition delete_user (user_id : Z) : M response :=
  conn ← get_db_connection;
  match conn with
  | None => mret (error "Database connection failed", 500)
  | Some _ =>
      try_except_finally
        (rows ← execute (Delete user_id);
         match fetchone rows with
         | None => mret (error "User not found", 404)
         | Some _ =>
             commit;;
             redis_conn ← get_redis_connection;
             match redis_conn with
             | Some _ =>
                 redis_delete "users:all";;
                 redis_delete (user_key user_id)
             | None => mret ()
             end;;
             mret (JObj [("message", JStr "User deleted successfully")], 200)
         end)
        on_error
        close
  end.

(** GET /health.  [now] is the text [datetime.now().isoformat()]
    gives, the clock of the application.  Neither connection is
    closed. *)
Definition health_check (now : string) : M response :=
  conn ← get_db_connection;
  let db_status := match conn with Some _ => "healthy" | None => "unhealthy" end in
  redis_conn ← get_redis_connection;
  let redis_status := match redis_conn with Some _ => "healthy" | None => "unhealthy" end in
  mret (JObj [("status", JStr "success");
              ("services", JObj [("database", JStr db_status);
                                 ("redis", JStr redis_status)]);
              ("timestamp", JStr now)],
        if String.eqb db_status "healthy" && String.eqb redis_status "healthy"
        then 200 else 503).

(** ** Reading a run *)

Definition outcome (A : Type) : Type := (exn + A) * world * list event.

(** The status code of a run that answered, and whether it is a
    success (200, or 201 for a creation). *)
Definition status (r : outcome response) : option Z :=
  match result r with
  | inr (_, code) => Some code
  | inl _ => None
  end.

Definition succeeded (r : outcome response) : bool :=
  match status r with
  | Some code => (code =? 200) || (code =? 201)
  | None => false
  end.

(** The value [data.get(k)] has for a dict, [None] when the key is
    missing. *)
Definition field (k : string) (items : list (string * json)) : json :=
  default JNull (assoc k items).

(** Deleting the given keys, one after the other. *)
Definition invalidate (keys : list string) (c : gmap string (json * Z)) : gmap string (json * Z) :=
  foldl (λ c k, delete k c) c keys.

(** The store's constraints on the table: [id] is a key drawn from the
    sequence, [email] is unique. *)
Record store_ok (w : world) : Prop := StoreOk {
  ids_unique : NoDup (map col_id (users w));
  emails_unique : NoDup (map col_email (users w));
  ids_drawn : Forall (λ u, col_id u ≤ users_id_seq w) (users w)
}.

(** The paths of a writer, which invalidates [keys] and answers [ok]
    when it succeeds: stopped at validation, stopped by a body that is
    not a dict, no connection, a statement that failed or found no row,
    and the committed write. *)
Inductive write_path (w : world) (keys : list string) (ok : Z) : outcome response → Prop :=
| write_invalid msg :
    write_path w keys ok (inr (error msg, 400), w, [])
| write_bad_body msg :
    write_path w keys ok (inl (AttributeError msg), w, [])
| write_no_db :
    db_up w = false →
    write_path w keys ok
      (inr (error "Database connection failed", 500), w, [DbConnect false])
| write_failed q msg code w' :
    db_up w = true →
    code = 400 ∨ code = 404 ∨ code = 500 →
    users w' = users w →
    cache w' = cache w →
    write_path w keys ok
      (inr (error msg, code), w', [DbConnect true; DbExecute q; DbClose])
| write_done q body up w' :
    db_up w = true →
    redis_up w = up →
    cache w' = (if up then invalidate keys (cache w) else cache w) →
    write_path w keys ok
      (inr (body, ok), w',
       [DbConnect true; DbExecute q; DbCommit; RedisConnect up]
         ++ (if up then map RedisDelete keys else []) ++ [DbClose]).

(** The calls that open a read: the cache is probed when it answers. *)
Definition probe (up : bool) (key : string) : list event :=
  RedisConnect up :: (if up then [RedisGet key] else []).

(** The paths of a reader that caches under [key] for [ttl] seconds: a
    hit, a miss with no store connection, a miss and no row, a miss
    answered by the store. *)
Inductive read_path (w : world) (key : string) (ttl : Z) : outcome response → Prop :=
| read_hit cached ttl' :
    redis_up w = true →
    cache w !! key = Some (cached, ttl') →
    read_path w key ttl (inr (cached, 200), w, [RedisConnect true; RedisGet key])
| read_no_db up :
    redis_up w = up →
    (up = true → cache w !! key = None) →
    db_up w = false →
    read_path w key ttl
      (inr (error "Database connection failed", 500), w, probe up key ++ [DbConnect false])
| read_not_found up q w' :
    redis_up w = up →
    (up = true → cache w !! key = None) →
    db_up w = true →
    users w' = users w →
    cache w' = cache w →
    read_path w key ttl
      (inr (error "User not found", 404), w',
       probe up key ++ [DbConnect true; DbExecute q; DbClose])
| read_fresh up q body w' :
    redis_up w = up →
    (up = true → cache w !! key = None) →
    db_up w = true →
    users w' = users w →
    cache w' = (if up then <[key := (body, ttl)]> (cache w) else cache w) →
    read_path w key ttl
      (inr (body, 200), w',
       probe up key ++ [DbConnect true; DbExecute q]
         ++ (if up then [RedisSetex key ttl body] else []) ++ [DbClose]).

(** ** The cache protocol, as statements about one run *)

(** The collection key is deleted, is absent afterwards, and is not
    written. *)
Definition collection_invalidated (r : outcome response) : Prop :=
  RedisDelete "users:all" ∈ calls r ∧
  cache (after r) !! "users:all" = None ∧
  (∀ ttl v, RedisSetex "users:all" ttl v ∉ calls r).

(** The key of one user is deleted and is absent afterwards. *)
Definition item_invalidated (user_id : Z) (r : outcome response) : Prop :=
  RedisDelete (user_key user_id) ∈ calls r ∧
  cache (after r) !! user_key user_id = None.

(** The write protocol: a deletion in the cache has the commit before
    it; a write that does not succeed has not committed; and a write
    that has not committed deleted nothing, and left the table and the
    cache as they were. *)
Definition write_protocol (w : world) (r : outcome response) : Prop :=
  (∀ pre k post, calls r = pre ++ RedisDelete k :: post → DbCommit ∈ pre) ∧
  (succeeded r = false → DbCommit ∉ calls r) ∧
  (DbCommit ∉ calls r →
   users (after r) = users w ∧ cache (after r) = cache w ∧
   (∀ k, RedisDelete k ∉ calls r)).

(** The read protocol for a reader that caches under [key] for [ttl]
    seconds.  On a hit the cached document is the answer, with status
    200, after two calls to the cache and none to the store, and the
    world is as before.  A write to the cache happens only on a miss:
    it is under [key], for [ttl] seconds, of the document answered. *)
Definition read_protocol (w : world) (key : string) (ttl : Z) (r : outcome response) : Prop :=
  (∀ cached ttl',
     redis_up w = true → cache w !! key = Some (cached, ttl') →
     r = (inr (cached, 200), w, [RedisConnect true; RedisGet key])) ∧
  (∀ k t v,
     RedisSetex k t v ∈ calls r →
     cache w !! key = None ∧ k = key ∧ t = ttl ∧
     result r = inr (v, 200) ∧ cache (after r) !! key = Some (v, ttl)).

(** What the store answers to the collection read. *)
Definition users_list (w : world) : json :=
  JArr (map user_dict (merge_sort by_id (users w))).

(** What the store answers to the read of one user. *)
Definition user_answer (user_id : Z) (w : world) : response :=
  match head (List.filter (has_id user_id) (users w)) with
  | Some u => (user_dict u, 200)
  | None => (error "User not found", 404)
  end.

Definition no_connection : response := (error "Database connection failed", 500).

(** A write with the cache out of reach: the answer and the table are
    those of the same write with the cache in reach, nothing is deleted
    from the cache, which is left as it was. *)
Definition write_degrades (h : M response) (w : world) : Prop :=
  result (h w) = result (h (set_redis_up true w)) ∧
  users (after (h w)) = users (after (h (set_redis_up true w))) ∧
  (∀ k, RedisDelete k ∉ calls (h w)) ∧
  cache (after (h w)) = cache w.

(** The answer of [update_user] to a request it does not accept. *)
Definition name_or_email_required : response :=
  (error "Name or email is required", 400).

(** The update rule in the words of the specification: the request is
    rejected exactly when neither key is present in the body. *)
Definition rejects_exactly_when_both_absent : Prop :=
  ∀ user_id items w,
    result (update_user user_id (JObj items) w) = inr name_or_email_required ↔
    contains "name" (JObj items) = false ∧ contains "email" (JObj items) = false.


(** ** A world to run the handlers in *)

Definition ada : user := User 1 "Ada" "ada@x.io" "2024-01-01T00:00:00".

Definition ada_body : json := JObj [("name", JStr "Ada L."); ("email", JStr "ada@x.io")].
Definition bob_body : json := JObj [("name", JStr "Bob"); ("email", JStr "bob@x.io")].

(** Both services up, one row, both of its snapshots cached. *)
Definition warm : world :=
  World true true [ada] 1 "2024-01-02T00:00:00" None
    (<["users:all" := (JArr [user_dict ada], 30)]>
       (<[user_key 1 := (user_dict ada, 60)]> ∅)).

(** The same with nothing cached, and with the cache out of reach. *)
Definition cold : world := set_cache ∅ warm.
Definition cacheless : world := set_redis_up false warm.

(** ** Further readings of a run *)

(** The body of every answer of [health_check]: the two services, each
    healthy or not. *)
Definition health_body (db redis : bool) (now : string) : json :=
  JObj [("status", JStr "success");
        ("services", JObj [("database", JStr (if db then "healthy" else "unhealthy"));
                           ("redis", JStr (if redis then "healthy" else "unhealthy"))]);
        ("timestamp", JStr now)].


(** A connection that was opened is closed by the last call, and no
    transaction is left open. *)
Definition connection_released (r : outcome response) : Prop :=
  DbConnect true ∈ calls r → last (calls r) = Some DbClose ∧ txn (after r) = None.




(** The row an UPDATE leaves in the place of each row of the given id. *)
Definition replace_row (user_id : Z) (u : user) (l : list user) : list user :=
  map (λ r, if has_id user_id r then u else r) l.

(** * Properties *)

Arguments adapt : simpl never.
Arguments varchar100 : simpl never.
Arguments user_key : simpl never.
Arguments merge_sort : simpl never.
Arguments probe : simpl never.

(** Symbolic execution of a handler: [run] unfolds the handler and the
    monad down to the tests it makes on the world and on the request,
    [split_match] decides the innermost test that is still open. *)
Ltac run :=
  cbv [create_user get_users get_user update_user delete_user
       get_db_connection get_redis_connection dict_get getitem
       on_store_error on_error execute nextval commit close fetchone fetchall
       redis_get redis_setex redis_delete try_except_finally lift
       mbind M_bind bind mret M_ret ret raise emit gets modify
       result after calls working];
  cbn.

Ltac split_match :=
  match goal with
  | |- context [match ?x with _ => _ end] =>
      lazymatch x with
      | context [match _ with _ => _ end] => fail
      | _ => destruct x eqn:?
      end
  end.

Ltac cases_or :=
  repeat match goal with H : _ ∨ _ |- _ => destruct H as [H|H] end.

Ltac run_all := run; repeat (split_match; cbn in * ).

Ltac use_assoc :=
  repeat match goal with
         | H : assoc _ _ = _ |- _ => rewrite H in *; clear H
         end;
  cbn in *; try discriminate.

Section Paths.

Local Ltac finish_write :=
  use_assoc;
  first [ by econstructor
        | by (eapply write_failed; cbn; eauto)
        | by (eapply write_done; cbn; eauto) ].

Lemma create_user_paths data w :
  write_path w ["users:all"] 201 (create_user data w).
Proof. run_all; finish_write. Qed.

Lemma update_user_paths user_id data w :
  write_path w ["users:all"; user_key user_id] 200 (update_user user_id data w).
Proof. run_all; finish_write. Qed.

Lemma delete_user_paths user_id w :
  write_path w ["users:all"; user_key user_id] 200 (delete_user user_id w).
Proof. run_all; finish_write. Qed.

Local Ltac finish_read :=
  repeat match goal with
         | H : _ <$> _ = Some _ |- _ =>
             apply fmap_Some in H; destruct H as ([??] & ? & ?); simplify_eq/=
         | H : _ <$> _ = None |- _ => apply fmap_None in H
         end;
  first [ by (eapply read_hit; eauto)
        | by (eapply (read_no_db _ _ _ true); cbn; eauto)
        | by (eapply (read_no_db _ _ _ false); cbn; eauto)
        | by (eapply (read_not_found _ _ _ true); cbn; eauto)
        | by (eapply (read_not_found _ _ _ false); cbn; eauto)
        | by (eapply (read_fresh _ _ _ true); cbn; eauto)
        | by (eapply (read_fresh _ _ _ false); cbn; eauto) ].

Lemma get_users_paths w : read_path w "users:all" 30 (get_users w).
Proof. run_all; finish_read. Qed.

Lemma get_user_paths user_id w :
  read_path w (user_key user_id) 60 (get_user user_id w).
Proof. run_all; finish_read. Qed.

End Paths.

(** ** What a writer's path says about the cache and the table *)

Lemma invalidate_lookup keys (c : gmap string (json * Z)) k :
  invalidate keys c !! k = if decide (k ∈ keys) then None else c !! k.
Proof.
  unfold invalidate. revert c.
  induction keys as [|k' keys IH]; intros c; cbn.
  - by rewrite decide_False by apply not_elem_of_nil.
  - rewrite IH. destruct (decide (k ∈ keys)) as [Hin|Hnin].
    + by rewrite decide_True by (apply elem_of_cons; auto).
    + destruct (decide (k = k')) as [->|Hne].
      * rewrite lookup_delete_eq.
        by rewrite decide_True by (apply elem_of_cons; auto).
      * rewrite lookup_delete_ne by done.
        rewrite decide_False; [done|].
        rewrite elem_of_cons. by intros [?|?].
Qed.

Lemma user_key_not_collection user_id : user_key user_id ≠ "users:all".
Proof. unfold user_key. cbn. discriminate. Qed.

Lemma user_key_inj i j : user_key i = user_key j → i = j.
Proof.
  unfold user_key. cbn. intros H. simplify_eq.
  by eapply (inj pretty).
Qed.

Lemma elem_of_done_calls e q up keys :
  e ∈ [DbConnect true; DbExecute q; DbCommit; RedisConnect up]
        ++ (if up then map RedisDelete keys else []) ++ [DbClose] ↔
  e = DbConnect true ∨ e = DbExecute q ∨ e = DbCommit ∨ e = RedisConnect up ∨
  (up = true ∧ ∃ k, k ∈ keys ∧ e = RedisDelete k) ∨ e = DbClose.
Proof.
  cbn. rewrite !elem_of_cons, elem_of_app, elem_of_cons, elem_of_nil.
  destruct up; [rewrite list_elem_of_fmap|rewrite elem_of_nil].
  - split.
    + intros [->|[->|[->|[->|[(k & -> & Hk)|[->|[]]]]]]]; eauto 10.
    + intros [->|[->|[->|[->|[(_ & k & Hk & ->)| ->]]]]]; eauto 10.
  - split.
    + intros [->|[->|[->|[->|[[]|[->|[]]]]]]]; eauto 10.
    + intros [->|[->|[->|[->|[([=] & _)| ->]]]]]; eauto 10.
Qed.

Section WritePath.

Context (w : world) (keys : list string) (ok : Z) (r : outcome response).
Hypothesis path : write_path w keys ok r.
Hypothesis ok_success : (ok =? 200) || (ok =? 201) = true.

Lemma write_invalidates k :
  succeeded r = true → redis_up w = true → k ∈ keys →
  RedisDelete k ∈ calls r ∧ cache (after r) !! k = None.
Proof using path.
  clear ok_success. intros Hs Hup Hk.
  destruct path as [| | |??? w' ? [->|[->| ->]]|?? up w' ?? Hc];
    cbn in *; try discriminate.
  subst up. rewrite Hup in *. split.
  - apply (elem_of_done_calls _ _ true). eauto 10.
  - rewrite Hc, invalidate_lookup. by rewrite decide_True.
Qed.

Lemma write_deletes_only k :
  RedisDelete k ∈ calls r →
  k ∈ keys ∧ redis_up w = true ∧ succeeded r = true.
Proof using path ok_success.
  destruct path as [| | | |?? up w' ?? Hc]; unfold calls; cbn [snd].
  1-4: rewrite ?elem_of_cons, ?elem_of_nil; intros Hin;
       cases_or; done.
  rewrite elem_of_done_calls. intros Hin.
  cases_or; try done.
  destruct Hin as (-> & k' & Hk & [= ->]).
  unfold succeeded, status; cbn. by rewrite ok_success.
Qed.

Lemma write_never_stores k ttl v : RedisSetex k ttl v ∉ calls r.
Proof using path.
  clear ok_success.
  destruct path as [| | | |?? up w' ?? Hc]; unfold calls; cbn [snd].
  1-4: rewrite ?elem_of_cons, ?elem_of_nil; intros Hin;
       cases_or; done.
  rewrite elem_of_done_calls. intros Hin.
  cases_or; try done.
  by destruct Hin as (_ & k' & _ & ?).
Qed.

Lemma write_commit_first pre k post :
  calls r = pre ++ RedisDelete k :: post → DbCommit ∈ pre.
Proof using path.
  clear ok_success.
  destruct path as [| | | |?? up w' ?? Hc]; cbn; intros Heq.
  1-4: repeat (destruct pre as [|? pre]; simplify_eq/=).
  do 4 (destruct pre as [|? pre]; simplify_eq/=).
  rewrite !elem_of_cons. auto.
Qed.

Lemma write_failure_uncommitted : succeeded r = false → DbCommit ∉ calls r.
Proof using path ok_success.
  intros Hs. destruct path; unfold calls; cbn [snd].
  1-4: rewrite ?elem_of_cons, ?elem_of_nil; intros Hin; cases_or; done.
  unfold succeeded, status in Hs; cbn in Hs. congruence.
Qed.

Lemma write_uncommitted_frame :
  DbCommit ∉ calls r →
  users (after r) = users w ∧ cache (after r) = cache w ∧
  (∀ k, RedisDelete k ∉ calls r).
Proof using path.
  clear ok_success.
  destruct path as [| | |???? _ _ Hu Hc|]; unfold calls; cbn; intros Hno.
  1-4: split_and!; try done;
       intros k; rewrite ?elem_of_cons, ?elem_of_nil; intros Hin; cases_or; done.
  destruct Hno. rewrite !elem_of_cons. auto.
Qed.

Lemma write_cache_frame k :
  k ∉ keys → cache (after r) !! k = cache w !! k.
Proof using path.
  clear ok_success. intros Hk.
  destruct path as [| | |??? w' ??? Hc|?? up w' ?? Hc]; cbn; try done.
  - by rewrite Hc.
  - rewrite Hc. destruct up; [|done].
    by rewrite invalidate_lookup, decide_False.
Qed.

End WritePath.

(** ** Writes invalidate *)

(** C1. When the cache is reachable, every successful create, update
    and delete deletes the collection key ['users:all']: the deletion
    is among the calls of the request, the key is absent afterwards,
    and nothing is written under it. *)
Theorem successful_write_deletes_collection_key (w : world) :
  redis_up w = true →
  (∀ data, succeeded (create_user data w) = true →
           collection_invalidated (create_user data w)) ∧
  (∀ user_id data, succeeded (update_user user_id data w) = true →
                   collection_invalidated (update_user user_id data w)) ∧
  (∀ user_id, succeeded (delete_user user_id w) = true →
              collection_invalidated (delete_user user_id w)).
Proof.
  intros Hup. unfold collection_invalidated. split_and!; intros.
  - pose proof (create_user_paths data w) as Hp.
    destruct (write_invalidates _ _ _ _ Hp "users:all") as [??]; auto.
    { apply elem_of_cons; auto. }
    split_and!; auto. intros ??. by eapply write_never_stores.
  - pose proof (update_user_paths user_id data w) as Hp.
    destruct (write_invalidates _ _ _ _ Hp "users:all") as [??]; auto.
    { apply elem_of_cons; auto. }
    split_and!; auto. intros ??. by eapply write_never_stores.
  - pose proof (delete_user_paths user_id w) as Hp.
    destruct (write_invalidates _ _ _ _ Hp "users:all") as [??]; auto.
    { apply elem_of_cons; auto. }
    split_and!; auto. intros ??. by eapply write_never_stores.
Qed.

Lemma successful_write_deletes_collection_key_witness :
  redis_up warm = true ∧
  collection_invalidated (create_user bob_body warm) ∧
  collection_invalidated (update_user 1 ada_body warm) ∧
  collection_invalidated (delete_user 1 warm).
Proof.
  split; [reflexivity|].
  destruct (successful_write_deletes_collection_key warm eq_refl) as (Hc & Hu & Hd).
  split_and!; [apply Hc | apply Hu | apply Hd]; vm_compute; reflexivity.
Defined.

(** C2. For every id, a successful update or delete of that user
    deletes the key ['user:<id>'] when the cache is reachable; a create
    deletes no key but the collection key, so no per-item key, and
    leaves every per-item entry as it was. *)
Theorem item_key_deleted_by_update_and_delete_not_create (w : world) (user_id : Z) :
  (redis_up w = true →
   (∀ data, succeeded (update_user user_id data w) = true →
            item_invalidated user_id (update_user user_id data w)) ∧
   (succeeded (delete_user user_id w) = true →
    item_invalidated user_id (delete_user user_id w))) ∧
  (∀ data,
     (∀ k, RedisDelete k ∈ calls (create_user data w) → k = "users:all") ∧
     (RedisDelete (user_key user_id) ∉ calls (create_user data w)) ∧
     cache (after (create_user data w)) !! user_key user_id
       = cache w !! user_key user_id).
Proof.
  assert (Hin : user_key user_id ∈ ["users:all"; user_key user_id]).
  { rewrite !elem_of_cons. auto. }
  split; [intros Hup; split|].
  - intros data Hs.
    exact (write_invalidates _ _ _ _ (update_user_paths user_id data w) _ Hs Hup Hin).
  - intros Hs.
    exact (write_invalidates _ _ _ _ (delete_user_paths user_id w) _ Hs Hup Hin).
  - intros data. pose proof (create_user_paths data w) as Hp.
    assert (Hone : ∀ k, RedisDelete k ∈ calls (create_user data w) → k = "users:all").
    { intros k Hk.
      apply (write_deletes_only _ _ _ _ Hp eq_refl) in Hk as (Hk & _).
      by apply list_elem_of_singleton in Hk. }
    split_and!; [done| |].
    + intros Hk. by apply Hone, user_key_not_collection in Hk.
    + apply (write_cache_frame _ _ _ _ Hp).
      rewrite list_elem_of_singleton. apply user_key_not_collection.
Qed.

Lemma item_key_deleted_by_update_and_delete_not_create_witness :
  item_invalidated 1 (update_user 1 ada_body warm) ∧
  item_invalidated 1 (delete_user 1 warm) ∧
  cache (after (create_user bob_body warm)) !! user_key 1 = cache warm !! user_key 1.
Proof.
  destruct (item_key_deleted_by_update_and_delete_not_create warm 1) as (Hw & Hc).
  destruct (Hw eq_refl) as (Hu & Hd).
  split_and!; [apply Hu | apply Hd | apply Hc]; vm_compute; reflexivity.
Defined.

(** C3. In each of the three writers a deletion in the cache comes
    after the commit of the store.  A write that does not succeed (a
    duplicate email, any error of the store, an unknown id, a rejected
    request) has committed nothing; and where nothing is committed,
    nothing is deleted from the cache, and the table and the cache are
    left unchanged. *)
Theorem invalidation_only_after_commit (w : world) :
  (∀ data, write_protocol w (create_user data w)) ∧
  (∀ user_id data, write_protocol w (update_user user_id data w)) ∧
  (∀ user_id, write_protocol w (delete_user user_id w)).
Proof.
  unfold write_protocol. split_and!; intros.
  - pose proof (create_user_paths data w) as Hp. split_and!.
    + intros ???. by eapply write_commit_first.
    + by eapply write_failure_uncommitted.
    + by eapply write_uncommitted_frame.
  - pose proof (update_user_paths user_id data w) as Hp. split_and!.
    + intros ???. by eapply write_commit_first.
    + by eapply write_failure_uncommitted.
    + by eapply write_uncommitted_frame.
  - pose proof (delete_user_paths user_id w) as Hp. split_and!.
    + intros ???. by eapply write_commit_first.
    + by eapply write_failure_uncommitted.
    + by eapply write_uncommitted_frame.
Qed.

Lemma invalidation_only_after_commit_witness :
  users (after (create_user ada_body warm)) = users warm ∧
  cache (after (create_user ada_body warm)) = cache warm ∧
  (∀ k, RedisDelete k ∉ calls (create_user ada_body warm)) ∧
  DbCommit ∈ [DbConnect true; DbExecute (Delete 1); DbCommit; RedisConnect true].
Proof.
  destruct (invalidation_only_after_commit warm) as (Hc & _ & Hd).
  destruct (Hc ada_body) as (_ & Hfail & Hframe).
  destruct (Hframe (Hfail eq_refl)) as (Hu & Hk & Hno).
  destruct (Hd 1) as (Hfirst & _).
  split_and!; [exact Hu | exact Hk | exact Hno |].
  apply (Hfirst _ "users:all" [RedisDelete (user_key 1); DbClose]). reflexivity.
Defined.

(** ** Reads populate *)

Lemma elem_of_fresh_calls e up key q ttl body :
  e ∈ probe up key ++ [DbConnect true; DbExecute q]
        ++ (if up then [RedisSetex key ttl body] else []) ++ [DbClose] →
  e = RedisConnect up ∨ e = RedisGet key ∨ e = DbConnect true ∨ e = DbExecute q ∨
  (up = true ∧ e = RedisSetex key ttl body) ∨ e = DbClose.
Proof.
  unfold probe. destruct up; cbn; rewrite !elem_of_cons, elem_of_nil; intros H;
    cases_or; auto 10; done.
Qed.

Section ReadPath.

Context (w : world) (key : string) (ttl : Z) (r : outcome response).
Hypothesis path : read_path w key ttl r.

Lemma read_hit_verbatim cached ttl' :
  redis_up w = true → cache w !! key = Some (cached, ttl') →
  r = (inr (cached, 200), w, [RedisConnect true; RedisGet key]).
Proof using path.
  intros Hup Hc.
  destruct path as [?? _ Hc'|up Hup' Hm|up ?? Hup' Hm|up ??? Hup' Hm].
  - rewrite Hc in Hc'. by simplify_eq.
  - rewrite Hm in Hc; [done|congruence].
  - rewrite Hm in Hc; [done|congruence].
  - rewrite Hm in Hc; [done|congruence].
Qed.

Lemma read_stores_on_miss_only k t v :
  RedisSetex k t v ∈ calls r →
  cache w !! key = None ∧ k = key ∧ t = ttl ∧
  result r = inr (v, 200) ∧ cache (after r) !! key = Some (v, ttl).
Proof using path.
  destruct path as [|up|up|up q body w' Hup Hm Hdb Hu Hc]; unfold calls; cbn [snd].
  1-3: unfold probe; try destruct up; cbn;
       rewrite ?elem_of_cons, ?elem_of_nil; intros Hin; cases_or; done.
  intros Hin. apply elem_of_fresh_calls in Hin.
  cases_or; try done. destruct Hin as (-> & [= -> -> ->]).
  cbn. rewrite Hc, lookup_insert_eq. auto.
Qed.

Lemma read_keeps_table : users (after r) = users w.
Proof using path. by destruct path. Qed.

End ReadPath.

Lemma filter_has_id_absent user_id (l : list user) :
  (∀ u, u ∈ l → col_id u ≠ user_id) → List.filter (has_id user_id) l = [].
Proof.
  induction l as [|u l IH]; intros Habs; cbn; [done|].
  unfold has_id at 1. destruct (Z.eqb_spec (col_id u) user_id) as [Heq|_].
  - destruct (Habs u); [apply elem_of_cons; auto|done].
  - apply IH. intros u' Hu'. apply Habs, elem_of_cons. auto.
Qed.

Lemma filter_has_id_present user_id u (l : list user) :
  u ∈ l → col_id u = user_id →
  ∃ u' rest, List.filter (has_id user_id) l = u' :: rest ∧ u' ∈ l ∧ col_id u' = user_id.
Proof.
  intros Hin Hid.
  destruct (List.filter (has_id user_id) l) as [|u' rest] eqn:Hf.
  - assert (Hu : In u (List.filter (has_id user_id) l)).
    { apply List.filter_In. split; [by apply list_elem_of_In|].
      unfold has_id. by apply Z.eqb_eq. }
    rewrite Hf in Hu. destruct Hu.
  - exists u', rest. split; [done|].
    assert (Hu : In u' (List.filter (has_id user_id) l)) by (rewrite Hf; by left).
    apply List.filter_In in Hu as [Hu Hid'].
    split; [by apply list_elem_of_In|]. by apply Z.eqb_eq.
Qed.

Lemma get_users_miss w :
  redis_up w = true → db_up w = true → cache w !! "users:all" = None →
  result (get_users w) = inr (users_list w, 200) ∧
  RedisSetex "users:all" 30 (users_list w) ∈ calls (get_users w) ∧
  cache (after (get_users w)) !! "users:all" = Some (users_list w, 30).
Proof.
  intros Hup Hdb Hc. run.
  repeat (progress rewrite ?Hup, ?Hdb, ?Hc; cbn).
  split_and!; [done| |apply lookup_insert_eq].
  rewrite !elem_of_cons. auto 10.
Qed.

Lemma get_user_miss w user_id u :
  redis_up w = true → db_up w = true → cache w !! user_key user_id = None →
  u ∈ users w → col_id u = user_id →
  ∃ u', u' ∈ users w ∧ col_id u' = user_id ∧
        result (get_user user_id w) = inr (user_dict u', 200) ∧
        RedisSetex (user_key user_id) 60 (user_dict u') ∈ calls (get_user user_id w) ∧
        cache (after (get_user user_id w)) !! user_key user_id = Some (user_dict u', 60).
Proof.
  intros Hup Hdb Hc Hin Hid.
  destruct (filter_has_id_present _ _ _ Hin Hid) as (u' & rest & Hf & Hin' & Hid').
  exists u'. split_and!; [done..| | |].
  all: run; repeat (progress rewrite ?Hup, ?Hdb, ?Hc, ?Hf; cbn).
  - done.
  - rewrite !elem_of_cons. auto 10.
  - apply lookup_insert_eq.
Qed.

(** C4. A read writes to the cache only on a miss: the collection read
    stores ['users:all'] for 30 seconds and the read of an existing id
    stores ['user:<id>'] for 60 seconds, each the document it answers;
    on a hit the cached document is answered as it is, with status 200,
    and the store is not called. *)
Theorem reads_populate_cache_on_miss_only (w : world) :
  read_protocol w "users:all" 30 (get_users w) ∧
  (∀ user_id, read_protocol w (user_key user_id) 60 (get_user user_id w)) ∧
  (redis_up w = true → db_up w = true → cache w !! "users:all" = None →
   result (get_users w) = inr (users_list w, 200) ∧
   RedisSetex "users:all" 30 (users_list w) ∈ calls (get_users w) ∧
   cache (after (get_users w)) !! "users:all" = Some (users_list w, 30)) ∧
  (∀ user_id u,
     redis_up w = true → db_up w = true → cache w !! user_key user_id = None →
     u ∈ users w → col_id u = user_id →
     ∃ u', u' ∈ users w ∧ col_id u' = user_id ∧
           result (get_user user_id w) = inr (user_dict u', 200) ∧
           RedisSetex (user_key user_id) 60 (user_dict u') ∈ calls (get_user user_id w) ∧
           cache (after (get_user user_id w)) !! user_key user_id
             = Some (user_dict u', 60)).
Proof.
  split_and!.
  - split; intros.
    + by eapply read_hit_verbatim; [apply get_users_paths|..].
    + by eapply read_stores_on_miss_only; [apply get_users_paths|].
  - split; intros.
    + by eapply read_hit_verbatim; [apply get_user_paths|..].
    + by eapply read_stores_on_miss_only; [apply get_user_paths|].
  - apply get_users_miss.
  - apply get_user_miss.
Qed.

Lemma reads_populate_cache_on_miss_only_witness :
  get_users warm
    = (inr (JArr [user_dict ada], 200), warm, [RedisConnect true; RedisGet "users:all"]) ∧
  get_user 1 warm
    = (inr (user_dict ada, 200), warm, [RedisConnect true; RedisGet (user_key 1)]) ∧
  cache (after (get_users cold)) !! "users:all" = Some (users_list cold, 30) ∧
  (∃ u', u' ∈ users cold ∧ col_id u' = 1 ∧
         result (get_user 1 cold) = inr (user_dict u', 200) ∧
         RedisSetex (user_key 1) 60 (user_dict u') ∈ calls (get_user 1 cold) ∧
         cache (after (get_user 1 cold)) !! user_key 1 = Some (user_dict u', 60)).
Proof.
  destruct (reads_populate_cache_on_miss_only warm) as ((Hall & _) & Hone & _).
  destruct (Hone 1) as (Hone1 & _).
  destruct (reads_populate_cache_on_miss_only cold) as (_ & _ & Hmiss & Hmiss1).
  split_and!.
  - apply (Hall _ 30); reflexivity.
  - apply (Hone1 _ 60); reflexivity.
  - apply Hmiss; reflexivity.
  - apply (Hmiss1 1 ada); try reflexivity. apply list_elem_of_here.
Defined.

(** C5. Reading an id that is not in the store leaves the cache as it
    was and writes nothing to it; when the store is reachable and the
    cache misses (or is out of reach), the answer is not-found, 404. *)
Theorem absent_id_not_found_and_not_cached (w : world) (user_id : Z) :
  (∀ u, u ∈ users w → col_id u ≠ user_id) →
  cache (after (get_user user_id w)) = cache w ∧
  (∀ k t v, RedisSetex k t v ∉ calls (get_user user_id w)) ∧
  (db_up w = true →
   (redis_up w = true → cache w !! user_key user_id = None) →
   result (get_user user_id w) = inr (error "User not found", 404)).
Proof.
  intros Habs. pose proof (filter_has_id_absent _ _ Habs) as Hf.
  run_all.
  all: try match goal with
           | H : head _ = Some _ |- _ => rewrite Hf in H; discriminate H
           end.
  all: split_and!; try done.
  all: try (intros ???; rewrite ?elem_of_cons, ?elem_of_nil; intros Hin; cases_or; done).
  all: try (intros; congruence).
  intros _ Hm. apply fmap_Some in Heqo as (? & Hc & _).
  rewrite Hm in Hc; done.
Qed.

Lemma absent_id_not_found_and_not_cached_witness :
  cache (after (get_user 7 cold)) = cache cold ∧
  (∀ k t v, RedisSetex k t v ∉ calls (get_user 7 cold)) ∧
  result (get_user 7 cold) = inr (error "User not found", 404).
Proof.
  assert (Habs : ∀ u, u ∈ users cold → col_id u ≠ 7).
  { intros u Hu. apply list_elem_of_singleton in Hu as ->. vm_compute. discriminate. }
  destruct (absent_id_not_found_and_not_cached cold 7 Habs) as (Hc & Hs & Hr).
  split_and!; [exact Hc | exact Hs | apply Hr; reflexivity].
Defined.

(** ** The cache is optional *)

(** C6. With the cache out of reach no handler fails for it.  A read
    makes no call to the cache beyond the failed connection, goes to
    the store, and answers what the store answers (200 with the list;
    200 with the row, or 404); a write answers, and changes the table,
    exactly as with the cache in reach, only without the deletions. *)
Theorem cache_outage_is_never_surfaced (w : world) :
  redis_up w = false →
  (get_users w =
     if db_up w
     then (inr (users_list w, 200), set_txn None w,
           [RedisConnect false; DbConnect true; DbExecute SelectAll; DbClose])
     else (inr no_connection, w, [RedisConnect false; DbConnect false])) ∧
  (∀ user_id,
     get_user user_id w =
       if db_up w
       then (inr (user_answer user_id w), set_txn None w,
             [RedisConnect false; DbConnect true; DbExecute (SelectById user_id); DbClose])
       else (inr no_connection, w, [RedisConnect false; DbConnect false])) ∧
  (∀ data, write_degrades (create_user data) w) ∧
  (∀ user_id data, write_degrades (update_user user_id data) w) ∧
  (∀ user_id, write_degrades (delete_user user_id) w).
Proof.
  intros Hup. unfold write_degrades, user_answer, users_list, no_connection.
  split_and!; intros.
  1: { run. rewrite Hup. cbn. by destruct (db_up w). }
  1: { run. rewrite Hup. cbn. destruct (db_up w); [|done]. cbn.
       by destruct (head _). }
  all: run; rewrite ?Hup; repeat (split_match; cbn in * ).
  all: split_and!; try done.
  all: intros k; rewrite ?elem_of_cons, ?elem_of_nil; intros Hin; cases_or; done.
Qed.

Lemma cache_outage_is_never_surfaced_witness :
  result (get_users cacheless) = inr (JArr [user_dict ada], 200) ∧
  result (get_user 1 cacheless) = inr (user_dict ada, 200) ∧
  write_degrades (create_user bob_body) cacheless ∧
  write_degrades (update_user 1 ada_body) cacheless ∧
  write_degrades (delete_user 1) cacheless.
Proof.
  destruct (cache_outage_is_never_surfaced cacheless eq_refl)
    as (Hall & Hone & Hc & Hu & Hd).
  split_and!; [by rewrite Hall | by rewrite Hone | apply Hc | apply Hu | apply Hd].
Defined.

(** ** Validation *)

(** C7. A create request with no body, or whose name or email is
    missing or empty (false in Python's sense), is answered 400 without
    a single call to the store or to the cache, and the world is
    untouched: no connection, no statement, no cache access. *)
Theorem create_validation_reaches_neither_store_nor_cache (data : json) (w : world) :
  (truthy data = false ∨
   ∃ items, data = JObj items ∧
            (truthy (field "name" items) = false ∨
             truthy (field "email" items) = false)) →
  create_user data w = (inr (error "Name and email are required", 400), w, []).
Proof.
  unfold field. intros [Hd|(items & -> & [Hn|He])]; run; unfold py_not.
  - by rewrite Hd.
  - destruct (truthy (JObj items)); [|done]. cbn. by rewrite Hn.
  - destruct (truthy (JObj items)); [|done]. cbn.
    destruct (truthy (default JNull (assoc "name" items))); [|done].
    cbn. by rewrite He.
Qed.

Lemma create_validation_reaches_neither_store_nor_cache_witness :
  create_user JNull warm
    = (inr (error "Name and email are required", 400), warm, []) ∧
  create_user (JObj [("email", JStr "bob@x.io")]) warm
    = (inr (error "Name and email are required", 400), warm, []) ∧
  create_user (JObj [("name", JStr "Bob"); ("email", JStr EmptyString)]) warm
    = (inr (error "Name and email are required", 400), warm, []).
Proof.
  split_and!; apply create_validation_reaches_neither_store_nor_cache.
  - left. reflexivity.
  - right. eexists. split; [reflexivity|]. left. reflexivity.
  - right. eexists. split; [reflexivity|]. right. reflexivity.
Defined.

(** ** The unique email *)

Lemma existsb_has_email e (l : list user) :
  existsb (has_email e) l = true ↔ e ∈ map col_email l.
Proof.
  rewrite List.existsb_exists, list_elem_of_fmap. unfold has_email.
  split.
  - intros (u & Hu & He). apply String.eqb_eq in He.
    exists u. split; [done|]. by apply list_elem_of_In.
  - intros (u & -> & Hu). exists u. split; [by apply list_elem_of_In|].
    apply String.eqb_refl.
Qed.




(** ** Validation of an update *)

Lemma update_user_rejected user_id items w :
  truthy (field "name" items) = false →
  truthy (field "email" items) = false →
  update_user user_id (JObj items) w = (inr name_or_email_required, w, []).
Proof.
  unfold field. intros Hn He. run. unfold py_not.
  destruct (truthy (JObj items)); [|done]. cbn. by rewrite Hn, He.
Qed.

Lemma update_user_accepted user_id items w :
  truthy (field "name" items) = true ∨ truthy (field "email" items) = true →
  result (update_user user_id (JObj items) w) ≠ inr name_or_email_required ∧
  ∃ rest, calls (update_user user_id (JObj items) w) = DbConnect (db_up w) :: rest.
Proof.
  unfold field, name_or_email_required. intros Hor.
  assert (Hit : truthy (JObj items) = true).
  { destruct items; [|done]. cbn in Hor. by destruct Hor. }
  run. unfold py_not. rewrite Hit. cbn.
  destruct (truthy (default JNull (assoc "name" items))) eqn:Hn; cbn.
  2: destruct Hor as [?|He]; [done|]; rewrite He; cbn.
  all: repeat (split_match; cbn in * ); split; try discriminate; eauto.
Qed.

(** C9, as the code has it.  [update_user] answers 400 ['Name or email
    is required'] exactly when neither [name] nor [email] has a value
    that is true in Python's sense (a key that is missing, or whose
    value is empty, does not count), and then it calls nothing; as soon
    as one of the two has such a value the request passes validation
    and the connection to the store is the first call made. *)
Theorem update_rejects_exactly_when_nothing_given (user_id : Z) (items : list (string * json)) (w : world) :
  (result (update_user user_id (JObj items) w) = inr name_or_email_required ↔
   truthy (field "name" items) = false ∧ truthy (field "email" items) = false) ∧
  (truthy (field "name" items) = false ∧ truthy (field "email" items) = false →
   update_user user_id (JObj items) w = (inr name_or_email_required, w, [])) ∧
  (truthy (field "name" items) = true ∨ truthy (field "email" items) = true →
   ∃ rest, calls (update_user user_id (JObj items) w) = DbConnect (db_up w) :: rest).
Proof.
  split_and!.
  - split.
    + intros Hr.
      destruct (truthy (field "name" items)) eqn:Hn.
      { destruct (update_user_accepted user_id items w) as [Hne _]; [auto|done]. }
      destruct (truthy (field "email" items)) eqn:He; [|done].
      destruct (update_user_accepted user_id items w) as [Hne _]; [auto|done].
    + intros [Hn He]. by rewrite update_user_rejected.
  - intros [Hn He]. by apply update_user_rejected.
  - intros Hor. by apply update_user_accepted.
Qed.

Lemma update_rejects_exactly_when_nothing_given_witness :
  update_user 1 (JObj [("name", JStr EmptyString)]) warm
    = (inr name_or_email_required, warm, []) ∧
  ∃ rest, calls (update_user 1 (JObj [("email", JStr "ada@y.io")]) warm)
            = DbConnect (db_up warm) :: rest.
Proof.
  split.
  - apply (update_rejects_exactly_when_nothing_given 1 [("name", JStr EmptyString)] warm).
    split; reflexivity.
  - apply (update_rejects_exactly_when_nothing_given 1 [("email", JStr "ada@y.io")] warm).
    right. reflexivity.
Defined.

(** C9, as the specification words it, fails: a body whose only item
    is a [name] that is the empty text has the key [name], and is
    rejected all the same. *)
Lemma update_rejects_a_present_empty_name : ¬ rejects_exactly_when_both_absent.
Proof.
  intros Hspec.
  destruct (Hspec 1 [("name", JStr EmptyString)] warm) as [Hrej _].
  destruct Hrej as [Hname _]; [reflexivity|].
  vm_compute in Hname. discriminate Hname.
Qed.

(** ** What an update can write *)

Lemma varchar100_short s : (String.length s ≤ 100)%nat → varchar100 s = inr s.
Proof.
  intros Hlen. unfold varchar100.
  by destruct (Nat.leb_spec (String.length s) 100); [|lia].
Qed.




(** ** The constraints of the table are kept *)

Lemma drawn_mono n m (l : list user) :
  n ≤ m → Forall (λ u, col_id u ≤ n) l → Forall (λ u, col_id u ≤ m) l.
Proof.
  intros Hnm Hl. eapply Forall_impl; [exact Hl|]. intros u Hu. cbn in *. lia.
Qed.

Lemma inserted_row_ok (l : list user) seq n e now :
  NoDup (map col_id l) → NoDup (map col_email l) →
  Forall (λ u, col_id u ≤ seq) l →
  existsb (has_email e) l = false →
  NoDup (map col_id (l ++ [User (seq + 1) n e now])) ∧
  NoDup (map col_email (l ++ [User (seq + 1) n e now])) ∧
  Forall (λ u, col_id u ≤ seq + 1) (l ++ [User (seq + 1) n e now]).
Proof.
  intros Hid Hem Hdr Hfresh. rewrite !map_app. cbn. split_and!.
  - apply NoDup_app. split_and!; [done| |apply NoDup_singleton].
    intros i Hi Hi'. apply list_elem_of_singleton in Hi' as ->.
    apply list_elem_of_fmap in Hi as (u & Hu & Hin).
    rewrite Forall_forall in Hdr. specialize (Hdr u Hin). lia.
  - apply NoDup_app. split_and!; [done| |apply NoDup_singleton].
    intros e' He He'. apply list_elem_of_singleton in He' as ->.
    apply existsb_has_email in He. congruence.
  - apply Forall_app. split; [eapply drawn_mono; [|done]; lia|].
    apply Forall_singleton. cbn. lia.
Qed.

Lemma updated_rows_ids user_id (u : user) (l : list user) :
  col_id u = user_id →
  map col_id (map (λ r, if has_id user_id r then u else r) l) = map col_id l.
Proof.
  intros Hu. induction l as [|r l IH]; cbn; [done|]. rewrite IH. f_equal.
  unfold has_id. destruct (Z.eqb_spec (col_id r) user_id); congruence.
Qed.

Lemma updated_rows_emails user_id (u : user) (l : list user) :
  NoDup (map col_id l) → NoDup (map col_email l) →
  existsb (λ r, has_email (col_email u) r && negb (has_id user_id r)) l = false →
  NoDup (map col_email (map (λ r, if has_id user_id r then u else r) l)).
Proof.
  induction l as [|r l IH]; cbn; [constructor|].
  intros Hid Hem Hex.
  apply NoDup_cons in Hid as [Hid1 Hid], Hem as [Hem1 Hem].
  apply orb_false_elim in Hex as [Hr Hex].
  apply NoDup_cons. split; [|by apply IH].
  intros Hin. apply list_elem_of_fmap in Hin as (x & He & Hx).
  apply list_elem_of_fmap in Hx as (r' & -> & Hr').
  destruct (has_id user_id r) eqn:Hidr, (has_id user_id r') eqn:Hidr'.
  - destruct Hid1. apply list_elem_of_fmap. exists r'. split; [|done].
    unfold has_id in *. apply Z.eqb_eq in Hidr, Hidr'. congruence.
  - assert (Hother :
      existsb (λ r, has_email (col_email u) r && negb (has_id user_id r)) l = true).
    { apply List.existsb_exists. exists r'. split; [by apply list_elem_of_In|].
      rewrite Hidr'. cbn. rewrite andb_true_r. by apply String.eqb_eq. }
    congruence.
  - cbn in Hr. rewrite andb_true_r in Hr. by apply String.eqb_neq in Hr.
  - destruct Hem1. apply list_elem_of_fmap. by exists r'.
Qed.

Lemma updated_rows_drawn user_id seq (u : user) (l : list user) :
  col_id u ≤ seq → Forall (λ r, col_id r ≤ seq) l →
  Forall (λ r, col_id r ≤ seq) (map (λ r, if has_id user_id r then u else r) l).
Proof.
  intros Hu Hl. apply Forall_fmap. eapply Forall_impl; [exact Hl|].
  intros r Hr. cbn. by destruct (has_id user_id r).
Qed.

Lemma deleted_rows_nodup {B} (f : user → B) p (l : list user) :
  NoDup (map f l) → NoDup (map f (List.filter p l)).
Proof.
  induction l as [|r l IH]; cbn; intros Hnd; [done|].
  apply NoDup_cons in Hnd as [Hr Hnd].
  destruct (p r); cbn; [|by apply IH].
  apply NoDup_cons. split; [|by apply IH].
  intros Hin. apply Hr. apply list_elem_of_fmap in Hin as (x & -> & Hx).
  apply list_elem_of_fmap. exists x. split; [done|].
  apply list_elem_of_In. apply list_elem_of_In in Hx.
  by apply List.filter_In in Hx as [? _].
Qed.

Lemma deleted_rows_drawn seq p (l : list user) :
  Forall (λ r, col_id r ≤ seq) l → Forall (λ r, col_id r ≤ seq) (List.filter p l).
Proof.
  rewrite !Forall_forall. intros Hl r Hr. apply Hl.
  apply list_elem_of_In. apply list_elem_of_In in Hr.
  by apply List.filter_In in Hr as [? _].
Qed.

Ltac found_row :=
  match goal with
  | Hf : List.find (has_id ?i) ?l = Some ?u |- _ =>
      let Hin := fresh "Hin" in
      apply List.find_some in Hf as [Hin Hf];
      apply list_elem_of_In in Hin;
      unfold has_id in Hf; apply Z.eqb_eq in Hf
  end.

Ltac keep_table :=
  first
    [ done
    | by (eapply drawn_mono; [|done]; lia)
    | by apply deleted_rows_nodup
    | by apply deleted_rows_drawn
    | by (edestruct inserted_row_ok as (? & ? & ?); eauto)
    | by (found_row; rewrite updated_rows_ids)
    | by apply updated_rows_emails
    | by (found_row; apply updated_rows_drawn; [cbn|done];
          match goal with
          | Hdr : Forall _ ?l, Hin : _ ∈ ?l |- _ =>
              rewrite Forall_forall in Hdr; exact (Hdr _ Hin)
          end) ].

(** X19. Every handler leaves a table that meets the constraints it
    found met: no two rows with the same id, no two rows with the same
    email, and no id ahead of the sequence, so that the next id drawn
    is new. *)
Lemma handlers_keep_store_ok (w : world) :
  store_ok w →
  (∀ data, store_ok (after (create_user data w))) ∧
  (∀ user_id data, store_ok (after (update_user user_id data w))) ∧
  (∀ user_id, store_ok (after (delete_user user_id w))) ∧
  store_ok (after (get_users w)) ∧
  (∀ user_id, store_ok (after (get_user user_id w))).
Proof.
  intros [Hid Hem Hdr]. split_and!; intros; run_all.
  all: constructor; cbn; keep_table.
Qed.

Lemma handlers_keep_store_ok_witness :
  store_ok (after (create_user bob_body warm)) ∧
  store_ok (after (update_user 1 ada_body warm)) ∧
  store_ok (after (delete_user 1 warm)).
Proof.
  assert (Hok : store_ok warm).
  { split; cbn.
    - apply NoDup_singleton.
    - apply NoDup_singleton.
    - apply Forall_singleton. cbn. lia. }
  destruct (handlers_keep_store_ok warm Hok) as (Hc & Hu & Hd & _).
  split_and!; [apply Hc | apply Hu | apply Hd].
Defined.

(** ** Frame and expiry *)

(** X17. An update or a delete of one user, whatever its outcome,
    leaves the cached snapshot of every other user as it was: the two
    keys a writer deletes are the collection key and the key of its own
    id, and the keys of different ids are different. *)
Lemma other_items_untouched (w : world) (user_id other : Z) :
  other ≠ user_id →
  (∀ data, cache (after (update_user user_id data w)) !! user_key other
           = cache w !! user_key other) ∧
  cache (after (delete_user user_id w)) !! user_key other
    = cache w !! user_key other.
Proof.
  intros Hne.
  assert (Hout : user_key other ∉ ["users:all"; user_key user_id]).
  { rewrite !elem_of_cons, elem_of_nil. intros [Hk|[Hk|[]]].
    - by apply user_key_not_collection in Hk.
    - by apply user_key_inj in Hk. }
  split; [intros data|].
  - by apply (write_cache_frame _ _ _ _ (update_user_paths user_id data w)).
  - by apply (write_cache_frame _ _ _ _ (delete_user_paths user_id w)).
Qed.

Lemma other_items_untouched_witness :
  cache (after (update_user 1 ada_body warm)) !! user_key 2 = cache warm !! user_key 2 ∧
  cache (after (delete_user 2 warm)) !! user_key 1 = cache warm !! user_key 1.
Proof.
  split.
  - apply (other_items_untouched warm 1 2). discriminate.
  - apply (other_items_untouched warm 2 1). discriminate.
Defined.

Lemma elapse_lookup dt (w : world) k :
  cache (elapse dt w) !! k =
    match cache w !! k with
    | Some (v, ttl) => if decide (0 < ttl - dt) then Some (v, ttl - dt) else None
    | None => None
    end.
Proof.
  unfold elapse. cbn. rewrite map_lookup_filter, lookup_fmap.
  destruct (cache w !! k) as [[v ttl]|]; cbn; [|done].
  destruct (decide (0 < ttl - dt));
    [by rewrite option_guard_True | by rewrite option_guard_False].
Qed.

(** The snapshot a collection read stores is served for less than 30
    seconds: it is there while fewer have passed, and gone once 30
    have. *)
Lemma collection_snapshot_expires (w : world) dt :
  redis_up w = true → db_up w = true → cache w !! "users:all" = None →
  0 ≤ dt →
  cache (elapse dt (after (get_users w))) !! "users:all" =
    if decide (dt < 30) then Some (users_list w, 30 - dt) else None.
Proof.
  intros Hup Hdb Hmiss Hdt. rewrite elapse_lookup.
  destruct (get_users_miss w Hup Hdb Hmiss) as (_ & _ & ->).
  repeat case_decide; (done || lia).
Qed.

(** * Further properties of the handlers *)

(** ** The health check *)

(** X1. [health_check] never raises; it answers 200 exactly when both the
    store and the cache can be reached and 503 otherwise; and in both
    cases its body says ['status': 'success'] and names each service
    healthy or unhealthy as it was found. *)
Theorem health_check_status (now : string) (w : world) :
  result (health_check now w)
    = inr (health_body (db_up w) (redis_up w) now,
           if db_up w && redis_up w then 200 else 503) ∧
  (status (health_check now w) = Some 200 ↔ db_up w = true ∧ redis_up w = true) ∧
  (status (health_check now w) = Some 503 ↔ db_up w = false ∨ redis_up w = false).
Proof.
  unfold health_check, status, health_body. run.
  destruct (db_up w); cbn; destruct (redis_up w); cbn; split_and!; try done.
  all: split; try done; try (intros [??]; done); try (intros [?|?]; done); auto.
Qed.



(** ** Connections *)

(** X3. Each of the five handlers of [/users] releases the connection
    it obtained, on every path (success, not found, conflict, error of
    the store): when a connection was opened, the last call of the
    request closes it and no transaction is left open. *)
Theorem handlers_release_connection (w : world) :
  (∀ data, connection_released (create_user data w)) ∧
  connection_released (get_users w) ∧
  (∀ user_id, connection_released (get_user user_id w)) ∧
  (∀ user_id data, connection_released (update_user user_id data w)) ∧
  (∀ user_id, connection_released (delete_user user_id w)).
Proof.
  unfold connection_released. split_and!; intros;
    match goal with H : _ ∈ _ |- _ => revert H end; run_all; intros Hin.
  all: first [ by split
             | rewrite ?elem_of_cons, ?elem_of_nil in Hin; cases_or; done ].
Qed.

Lemma handlers_release_connection_witness :
  last (calls (create_user bob_body warm)) = Some DbClose ∧
  txn (after (create_user bob_body warm)) = None ∧
  last (calls (create_user ada_body warm)) = Some DbClose ∧
  last (calls (get_user 7 cold)) = Some DbClose.
Proof.
  destruct (handlers_release_connection warm) as (Hc & _).
  destruct (handlers_release_connection cold) as (_ & _ & Hg & _).
  destruct (Hc bob_body) as (H1 & H2); [vm_compute; apply list_elem_of_here|].
  destruct (Hc ada_body) as (H3 & _); [vm_compute; apply list_elem_of_here|].
  destruct (Hg 7) as (H4 & _).
  { vm_compute. do 2 apply list_elem_of_further. apply list_elem_of_here. }
  split_and!; assumption.
Defined.

(** ** What a successful write leaves, and what the store answers *)

Lemma create_user_success data w body :
  result (create_user data w) = inr (body, 201) →
  ∃ n e, let u := User (users_id_seq w + 1) n e (current_timestamp w) in
    body = user_dict u ∧
    users (after (create_user data w)) = users w ++ [u] ∧
    cache (after (create_user data w))
      = (if redis_up w then delete "users:all" (cache w) else cache w) ∧
    db_up (after (create_user data w)) = true ∧
    redis_up (after (create_user data w)) = redis_up w.
Proof.
  run_all; intros [= <-]; eexists _, _; split_and!; try done.
Qed.

Lemma update_user_success user_id data w body :
  result (update_user user_id data w) = inr (body, 200) →
  ∃ old n e, let u := User (col_id old) n e (col_created_at old) in
    List.find (has_id user_id) (users w) = Some old ∧
    body = user_dict u ∧
    users (after (update_user user_id data w)) = replace_row user_id u (users w) ∧
    cache (after (update_user user_id data w))
      = (if redis_up w
         then delete (user_key user_id) (delete "users:all" (cache w))
         else cache w) ∧
    db_up (after (update_user user_id data w)) = true ∧
    redis_up (after (update_user user_id data w)) = redis_up w.
Proof.
  run_all; intros [= <-]; eexists _, _, _; split_and!; try done.
Qed.

Lemma delete_user_success user_id w body :
  result (delete_user user_id w) = inr (body, 200) →
  List.filter (has_id user_id) (users w) ≠ [] ∧
  users (after (delete_user user_id w))
    = List.filter (λ u, negb (has_id user_id u)) (users w) ∧
  cache (after (delete_user user_id w))
    = (if redis_up w
       then delete (user_key user_id) (delete "users:all" (cache w))
       else cache w) ∧
  db_up (after (delete_user user_id w)) = true ∧
  redis_up (after (delete_user user_id w)) = redis_up w.
Proof.
  run_all; intros [= <-]; split_and!; try done.
  all: by destruct (List.filter _ _).
Qed.

Lemma get_user_from_store user_id w :
  db_up w = true →
  (redis_up w = true → cache w !! user_key user_id = None) →
  result (get_user user_id w) = inr (user_answer user_id w).
Proof.
  intros Hdb Hmiss. unfold user_answer. run.
  destruct (redis_up w); cbn; rewrite ?Hmiss by done; cbn; rewrite Hdb; cbn;
    by destruct (head _).
Qed.

Lemma get_users_from_store w :
  db_up w = true →
  (redis_up w = true → cache w !! "users:all" = None) →
  result (get_users w) = inr (users_list w, 200).
Proof.
  intros Hdb Hmiss. unfold users_list. run.
  destruct (redis_up w); cbn; rewrite ?Hmiss by done; cbn; by rewrite Hdb.
Qed.

Lemma truthy_text s : s ≠ EmptyString → truthy (JStr s) = true.
Proof. intros Hs. cbn. apply negb_true_iff. by apply String.eqb_neq. Qed.

Lemma adapt_text s : (String.length s ≤ 100)%nat → adapt (JStr s) = inr (Some s).
Proof. intros Hs. unfold adapt. by rewrite varchar100_short. Qed.


(** ** Creating *)



Lemma head_filter_new_row user_id (u : user) (l : list user) :
  (∀ r, r ∈ l → col_id r ≠ user_id) → col_id u = user_id →
  head (List.filter (has_id user_id) (l ++ [u])) = Some u.
Proof.
  intros Habs Hu. rewrite List.filter_app, (filter_has_id_absent _ _ Habs). cbn.
  unfold has_id. by rewrite Hu, Z.eqb_refl.
Qed.

(** X5. Create, then read: in a table that meets its constraints, the
    user a create answered can at once be read under the id of that
    answer, and the read answers the same document with 200. *)
Theorem created_user_is_read_back (w : world) (data body : json) :
  store_ok w →
  (redis_up w = true → cache w !! user_key (users_id_seq w + 1) = None) →
  result (create_user data w) = inr (body, 201) →
  assoc "id" (match body with JObj items => items | _ => [] end)
    = Some (JNum (users_id_seq w + 1)) ∧
  result (get_user (users_id_seq w + 1) (after (create_user data w)))
    = inr (body, 200).
Proof.
  intros [_ _ Hdr] Hmiss Hok.
  destruct (create_user_success _ _ _ Hok) as (n & e & -> & Hu & Hc & Hdb & Hup).
  split; [done|].
  rewrite get_user_from_store; [|done|].
  - unfold user_answer. rewrite Hu, head_filter_new_row; [done| |done].
    intros r Hr. rewrite Forall_forall in Hdr. specialize (Hdr r Hr). lia.
  - rewrite Hup, Hc. intros Hr. rewrite Hr.
    rewrite lookup_delete_ne by (symmetry; apply user_key_not_collection).
    by apply Hmiss.
Qed.

Lemma created_user_is_read_back_witness :
  result (get_user 2 (after (create_user bob_body cold)))
    = inr (user_dict (User 2 "Bob" "bob@x.io" "2024-01-02T00:00:00"), 200).
Proof.
  apply (created_user_is_read_back cold bob_body).
  - split; cbn.
    + apply NoDup_singleton.
    + apply NoDup_singleton.
    + apply Forall_singleton. cbn. lia.
  - reflexivity.
  - reflexivity.
Defined.

(** X6. Create, then read all: whatever the cache held before, the
    collection read that follows a successful create answers 200 with a
    list in which the created user is. *)
Theorem created_user_is_listed (w : world) (data body : json) :
  result (create_user data w) = inr (body, 201) →
  ∃ listed, result (get_users (after (create_user data w))) = inr (JArr listed, 200) ∧
            body ∈ listed.
Proof.
  intros Hok.
  destruct (create_user_success _ _ _ Hok) as (n & e & -> & Hu & Hc & Hdb & Hup).
  eexists. split.
  - apply get_users_from_store; [done|].
    rewrite Hup, Hc. intros ->. apply lookup_delete_eq.
  - apply list_elem_of_fmap. eexists. split; [done|].
    rewrite merge_sort_Permutation, Hu, elem_of_app, list_elem_of_singleton. auto.
Qed.

Lemma created_user_is_listed_witness :
  ∃ listed, result (get_users (after (create_user bob_body warm))) = inr (JArr listed, 200) ∧
            user_dict (User 2 "Bob" "bob@x.io" "2024-01-02T00:00:00") ∈ listed.
Proof. apply (created_user_is_listed warm bob_body). reflexivity. Defined.

(** ** Reading *)

Global Instance by_id_total : Total by_id.
Proof. intros a b. unfold by_id. lia. Qed.

(** X7. The collection read never answers not-found: its status is 200
    or 500.  When it reads the store (the store reachable, the cache
    missing or out of reach) it answers 200 with the rows of the table,
    all of them and no other, in ascending order of id; for an empty
    table that is the empty list. *)
Theorem get_users_lists_the_table_by_id (w : world) :
  (status (get_users w) = Some 200 ∨ status (get_users w) = Some 500) ∧
  (db_up w = true →
   (redis_up w = true → cache w !! "users:all" = None) →
   ∃ rows, result (get_users w) = inr (JArr (map user_dict rows), 200) ∧
           Sorted by_id rows ∧ rows ≡ₚ users w).
Proof.
  split.
  - unfold status. run_all; auto.
  - intros Hdb Hmiss. exists (merge_sort by_id (users w)). split_and!.
    + by apply get_users_from_store.
    + apply Sorted_merge_sort. apply _.
    + apply merge_sort_Permutation.
Qed.

Lemma get_users_lists_the_table_by_id_witness :
  ∃ rows, result (get_users (after (create_user bob_body cold)))
            = inr (JArr (map user_dict rows), 200) ∧
          Sorted by_id rows ∧ rows ≡ₚ users (after (create_user bob_body cold)).
Proof.
  apply (get_users_lists_the_table_by_id (after (create_user bob_body cold)));
    reflexivity.
Defined.

(** ** Updating and deleting *)

Lemma head_filter_replace_row user_id (u old : user) (l : list user) :
  List.find (has_id user_id) l = Some old → has_id user_id u = true →
  head (List.filter (has_id user_id) (replace_row user_id u l)) = Some u.
Proof.
  intros Hfind Hu. induction l as [|r l IH]; cbn in *; [done|].
  destruct (has_id user_id r) eqn:Hr; cbn.
  - by rewrite Hu.
  - rewrite Hr. by apply IH.
Qed.


Lemma filter_out_id_absent user_id (l : list user) :
  ∀ u, u ∈ List.filter (λ u, negb (has_id user_id u)) l → col_id u ≠ user_id.
Proof.
  intros u Hu. apply list_elem_of_In, List.filter_In in Hu as [_ Hu].
  apply negb_true_iff in Hu. unfold has_id in Hu. by apply Z.eqb_neq in Hu.
Qed.

(** X8. Update, then read: whatever the cache held before (a snapshot
    of the old values included), the read of an id that follows a
    successful update of that id answers 200 with the document the
    update answered. *)
Theorem updated_user_is_read_back (w : world) (user_id : Z) (data body : json) :
  result (update_user user_id data w) = inr (body, 200) →
  result (get_user user_id (after (update_user user_id data w))) = inr (body, 200).
Proof.
  intros Hok.
  destruct (update_user_success _ _ _ _ Hok)
    as (old & n & e & Hfind & -> & Hu & Hc & Hdb & Hup).
  rewrite get_user_from_store; [|done|].
  - unfold user_answer. rewrite Hu.
    rewrite (head_filter_replace_row _ _ old); [done|done|].
    apply List.find_some in Hfind as [_ Hid]. exact Hid.
  - rewrite Hup, Hc. intros ->. apply lookup_delete_eq.
Qed.

Lemma updated_user_is_read_back_witness :
  result (get_user 1 (after (update_user 1 ada_body warm)))
    = inr (user_dict (User 1 "Ada L." "ada@x.io" "2024-01-01T00:00:00"), 200).
Proof. apply (updated_user_is_read_back warm 1 ada_body). reflexivity. Defined.

(** X9. Delete, then read or delete again: after a successful delete of
    an id no row of the table has that id, every row of another id is
    still there, and a read or a second delete of that id answers 404,
    whatever the cache held before. *)
Theorem deleted_user_is_gone (w : world) (user_id : Z) (body : json) :
  result (delete_user user_id w) = inr (body, 200) →
  (∀ u, u ∈ users (after (delete_user user_id w)) → col_id u ≠ user_id) ∧
  (∀ u, u ∈ users w → col_id u ≠ user_id → u ∈ users (after (delete_user user_id w))) ∧
  result (get_user user_id (after (delete_user user_id w)))
    = inr (error "User not found", 404) ∧
  result (delete_user user_id (after (delete_user user_id w)))
    = inr (error "User not found", 404).
Proof.
  intros Hok.
  destruct (delete_user_success _ _ _ Hok) as (_ & Hu & Hc & Hdb & Hup).
  pose proof (filter_out_id_absent user_id (users w)) as Habs. rewrite <- Hu in Habs.
  split_and!.
  - exact Habs.
  - intros u Hin Hne. rewrite Hu. apply list_elem_of_In, List.filter_In.
    split; [by apply list_elem_of_In|].
    apply negb_true_iff. unfold has_id. by apply Z.eqb_neq.
  - rewrite get_user_from_store; [|done|].
    + unfold user_answer. by rewrite (filter_has_id_absent _ _ Habs).
    + rewrite Hup, Hc. intros ->. apply lookup_delete_eq.
  - pose proof (filter_has_id_absent _ _ Habs) as Hf. revert Hdb Hf.
    generalize (after (delete_user user_id w)). intros w1 Hdb Hf.
    run. rewrite Hdb. cbn. by rewrite Hf.
Qed.

Lemma deleted_user_is_gone_witness :
  users (after (delete_user 1 warm)) = [] ∧
  result (get_user 1 (after (delete_user 1 warm))) = inr (error "User not found", 404) ∧
  result (delete_user 1 (after (delete_user 1 warm))) = inr (error "User not found", 404).
Proof.
  destruct (deleted_user_is_gone warm 1 (JObj [("message", JStr "User deleted successfully")]))
    as (_ & _ & Hr & Hd); [reflexivity|].
  split_and!; [reflexivity | exact Hr | exact Hd].
Defined.



(** X11. A successful update changes only what its body names and only
    the row of its id: the rows of the table are the old ones with the
    row of that id replaced; the new row keeps the id and the
    timestamp of the old one, keeps the name when the body has no
    [name], and keeps the email when the body has no [email]. *)
Theorem update_changes_only_what_is_named (w : world) (user_id : Z) (data body : json) :
  result (update_user user_id data w) = inr (body, 200) →
  ∃ old new,
    List.find (has_id user_id) (users w) = Some old ∧
    body = user_dict new ∧
    users (after (update_user user_id data w)) = replace_row user_id new (users w) ∧
    col_id new = col_id old ∧
    col_created_at new = col_created_at old ∧
    (contains "name" data = false → col_name new = col_name old) ∧
    (contains "email" data = false → col_email new = col_email old).
Proof.
  unfold contains. run_all; intros [= <-]; eexists _, _; split_and!; try done.
  all: intros; simplify_eq/=; try done.
Qed.

Lemma update_changes_only_what_is_named_witness :
  ∃ old new,
    List.find (has_id 1) (users warm) = Some old ∧
    user_dict (User 1 "Ada L." "ada@x.io" "2024-01-01T00:00:00") = user_dict new ∧
    users (after (update_user 1 (JObj [("name", JStr "Ada L.")]) warm))
      = replace_row 1 new (users warm) ∧
    col_id new = col_id old ∧
    col_created_at new = col_created_at old ∧
    (contains "name" (JObj [("name", JStr "Ada L.")]) = false → col_name new = col_name old) ∧
    (contains "email" (JObj [("name", JStr "Ada L.")]) = false → col_email new = col_email old).
Proof.
  apply (update_changes_only_what_is_named warm 1 (JObj [("name", JStr "Ada L.")])).
  reflexivity.
Defined.

Lemma other_row_has_email e user_id (other : user) (l : list user) :
  other ∈ l → col_email other = e → col_id other ≠ user_id →
  existsb (λ u, has_email e u && negb (has_id user_id u)) l = true.
Proof.
  intros Hin He Hid. apply List.existsb_exists. exists other.
  split; [by apply list_elem_of_In|]. unfold has_email, has_id.
  apply andb_true_intro. split; [by apply String.eqb_eq|].
  apply negb_true_iff. by apply Z.eqb_neq.
Qed.

(** X12. An update that sets the email of a user to the email of
    another row answers the conflict, 400 ['Email already exists'];
    nothing is committed, and the table and the cache are left as they
    were. *)
Theorem update_to_taken_email_conflicts (w : world) (user_id : Z) (e : string) (old other : user) :
  db_up w = true →
  List.find (has_id user_id) (users w) = Some old →
  other ∈ users w → col_id other ≠ user_id → col_email other = e →
  e ≠ EmptyString → (String.length e ≤ 100)%nat →
  result (update_user user_id (JObj [("email", JStr e)]) w)
    = inr (error "Email already exists", 400) ∧
  users (after (update_user user_id (JObj [("email", JStr e)]) w)) = users w ∧
  cache (after (update_user user_id (JObj [("email", JStr e)]) w)) = cache w ∧
  DbCommit ∉ calls (update_user user_id (JObj [("email", JStr e)]) w).
Proof.
  intros Hdb Hfind Hin Hid He Hne%truthy_text Hle. cbn in Hne.
  pose proof (other_row_has_email _ _ _ _ Hin He Hid) as Hex.
  run. unfold py_not. cbn.
  repeat (progress rewrite ?Hne, ?Hdb, ?(adapt_text _ Hle), ?Hfind, ?Hex; cbn).
  split_and!; try done.
  rewrite !elem_of_cons, elem_of_nil. intros H; cases_or; done.
Qed.

Lemma update_to_taken_email_conflicts_witness :
  result (update_user 2 (JObj [("email", JStr "ada@x.io")])
            (after (create_user bob_body warm)))
    = inr (error "Email already exists", 400) ∧
  users (after (update_user 2 (JObj [("email", JStr "ada@x.io")])
                  (after (create_user bob_body warm))))
    = users (after (create_user bob_body warm)).
Proof.
  destruct (update_to_taken_email_conflicts (after (create_user bob_body warm)) 2
              "ada@x.io" (User 2 "Bob" "bob@x.io" "2024-01-02T00:00:00") ada)
    as (Hr & Hu & _); try reflexivity.
  - apply list_elem_of_here.
  - discriminate.
  - discriminate.
  - cbn. lia.
  - split; [exact Hr | exact Hu].
Defined.



(** ** Bodies and outages *)

(** X14. A body that is true in Python's sense and is not a dict (a
    non-empty list or text, a number, [true]) is not answered by
    [create_user] or [update_user]: [data.get] raises an
    [AttributeError] that no [except] of the handler catches, before
    any call to the store or the cache, and the world is untouched. *)
Theorem body_that_is_no_dict_raises (data : json) (w : world) :
  truthy data = true →
  (∀ items, data ≠ JObj items) →
  (∃ msg, create_user data w = (inl (AttributeError msg), w, [])) ∧
  (∀ user_id, ∃ msg, update_user user_id data w = (inl (AttributeError msg), w, [])).
Proof.
  intros Ht Hno. split; [|intros user_id]; run; unfold py_not; rewrite Ht; cbn.
  all: destruct data; cbn; eauto; by destruct (Hno items).
Qed.

Lemma body_that_is_no_dict_raises_witness :
  (∃ msg, create_user (JArr [JStr "Bob"]) warm = (inl (AttributeError msg), warm, [])) ∧
  (∃ msg, update_user 1 (JStr "Bob") warm = (inl (AttributeError msg), warm, [])).
Proof.
  split.
  - apply (body_that_is_no_dict_raises (JArr [JStr "Bob"]) warm); [reflexivity|].
    intros items. discriminate.
  - apply (body_that_is_no_dict_raises (JStr "Bob") warm); [reflexivity|].
    intros items. discriminate.
Defined.



(** ** Expiry and staleness *)

Lemma get_users_miss_run w :
  redis_up w = true → db_up w = true → cache w !! "users:all" = None →
  get_users w
    = (inr (users_list w, 200),
       set_txn None
         (set_cache (<["users:all" := (users_list w, 30)]> (cache w))
            (set_txn (Some (users w)) w)),
       [RedisConnect true; RedisGet "users:all"; DbConnect true; DbExecute SelectAll;
        RedisSetex "users:all" 30 (users_list w); DbClose]).
Proof.
  intros Hup Hdb Hc. unfold users_list. run.
  by repeat (progress rewrite ?Hup, ?Hdb, ?Hc; cbn).
Qed.

(** X16. After a collection read that went to the store and cached its
    answer, a second collection read within 30 seconds, no write in
    between, is answered from the cache: the same document, two calls
    to the cache, none to the store.  Once 30 seconds have passed the
    entry is gone and the read goes to the store again. *)
Theorem collection_read_is_cached_for_30_seconds (w : world) (dt : Z) :
  redis_up w = true → db_up w = true → cache w !! "users:all" = None →
  0 ≤ dt →
  (dt < 30 →
   result (get_users (elapse dt (after (get_users w)))) = result (get_users w) ∧
   calls (get_users (elapse dt (after (get_users w))))
     = [RedisConnect true; RedisGet "users:all"]) ∧
  (30 ≤ dt →
   result (get_users (elapse dt (after (get_users w)))) = result (get_users w) ∧
   DbExecute SelectAll ∈ calls (get_users (elapse dt (after (get_users w))))).
Proof.
  intros Hup Hdb Hmiss Hdt.
  pose proof (collection_snapshot_expires w dt Hup Hdb Hmiss Hdt) as Hc.
  rewrite (get_users_miss_run w Hup Hdb Hmiss) in *. cbn [result after calls fst snd] in *.
  split; intros Hlt.
  - rewrite decide_True in Hc by done.
    erewrite (read_hit_verbatim _ _ _ _ (get_users_paths _)); [done|done|exact Hc].
  - rewrite decide_False in Hc by lia.
    rewrite get_users_miss_run; [|done|done|exact Hc].
    split; [done|]. cbn. rewrite !elem_of_cons. auto.
Qed.

Lemma collection_read_is_cached_for_30_seconds_witness :
  calls (get_users (elapse 10 (after (get_users cold))))
    = [RedisConnect true; RedisGet "users:all"] ∧
  DbExecute SelectAll ∈ calls (get_users (elapse 30 (after (get_users cold)))).
Proof.
  split.
  - apply (collection_read_is_cached_for_30_seconds cold 10); try reflexivity; lia.
  - apply (collection_read_is_cached_for_30_seconds cold 30); try reflexivity; lia.
Defined.

(** X18. The invalidation that is skipped is not made up for: when a
    snapshot of a user is cached and the cache is out of reach while
    that user is updated, a read made once the cache is back answers
    the cached snapshot, 200, and not the row the update left. *)
Theorem update_during_cache_outage_leaves_stale_snapshot
    (w : world) (user_id : Z) (data body cached : json) (ttl : Z) :
  cache w !! user_key user_id = Some (cached, ttl) →
  result (update_user user_id data (set_redis_up false w)) = inr (body, 200) →
  result (get_user user_id
            (set_redis_up true (after (update_user user_id data (set_redis_up false w)))))
    = inr (cached, 200).
Proof.
  intros Hc Hok.
  destruct (update_user_success _ _ _ _ Hok) as (old & n & e & _ & _ & _ & Hca & _).
  cbn in Hca.
  erewrite (read_hit_verbatim _ _ _ _ (get_user_paths _ _)); [done|done|].
  cbn. rewrite Hca. exact Hc.
Qed.

Lemma update_during_cache_outage_leaves_stale_snapshot_witness :
  result (update_user 1 ada_body (set_redis_up false warm))
    = inr (user_dict (User 1 "Ada L." "ada@x.io" "2024-01-01T00:00:00"), 200) ∧
  result (get_user 1
            (set_redis_up true (after (update_user 1 ada_body (set_redis_up false warm)))))
    = inr (user_dict ada, 200).
Proof.
  split; [reflexivity|].
  apply (update_during_cache_outage_leaves_stale_snapshot warm 1 ada_body
           (user_dict (User 1 "Ada L." "ada@x.io" "2024-01-01T00:00:00"))
           (user_dict ada) 60); reflexivity.
Defined.
